(** * WCAGAltTextGenerator: role classification, context extraction and record assembly

    Shallow embedding of [src/src/alt_text_generator.py].  The HTML text is
    parsed by BeautifulSoup ([html.parser]); the model starts from the parsed
    tree, with the string classes the parser assigns to text nodes, and
    embeds the queries the code makes on it ([get], [find_parent], [find],
    [get_text(strip=True)], [find_previous/find_next(string=True)]).  Python
    strings are [string]s, one [ascii] per code point. *)

From Stdlib Require Import String Ascii List Bool Arith Lia.
Import ListNotations.
Open Scope string_scope.
Open Scope list_scope.
Open Scope bool_scope.
Set Warnings "-register-all".

(** ** Python string helpers *)

(** [str.isspace] on one code point of the range 0-255 an [ascii] holds:
    \t \n \v \f \r, the separators 0x1c-0x1f, the space, U+0085 (NEL)
    and U+00A0 (no-break space). *)
Definition py_isspace (c : ascii) : bool :=
  let n := nat_of_ascii c in
  ((9 <=? n)%nat && (n <=? 13)%nat) || ((28 <=? n)%nat && (n <=? 32)%nat) ||
  (n =? 133)%nat || (n =? 160)%nat.

Fixpoint lstrip (s : string) : string :=
  match s with
  | EmptyString => EmptyString
  | String c s' => if py_isspace c then lstrip s' else s
  end.

Fixpoint rstrip (s : string) : string :=
  match s with
  | EmptyString => EmptyString
  | String c s' =>
      match rstrip s' with
      | EmptyString => if py_isspace c then EmptyString else String c EmptyString
      | r => String c r
      end
  end.

(** [str.strip()] *)
Definition strip (s : string) : string := rstrip (lstrip s).

(** Truthiness of a Python [str]: non-empty. *)
Definition py_truthy (s : string) : bool := negb (s =? "").

(** [pat in s] for strings. *)
Fixpoint contains (pat s : string) : bool :=
  match s with
  | EmptyString => prefix pat s
  | String _ s' => prefix pat s || contains pat s'
  end.

(** [x in [..]] for a list of strings. *)
Definition str_in (x : string) (l : list string) : bool :=
  existsb (String.eqb x) l.

(** [' '.join(parts)] *)
Definition join_space (parts : list string) : string := String.concat " " parts.

(** ** The parsed tree *)

(** The classes BeautifulSoup gives to strings: plain text and CDATA are
    the "interesting" ones for [get_text]; the others are comments,
    doctypes and the contents of script, style and template tags. *)
Inductive str_class :=
| NavigableString | CData | Comment | Doctype | Script | Stylesheet | TemplateString.

Definition attrs := list (string * string).

Inductive node :=
| Elem (name : string) (at_ : attrs) (children : list node)
| Str (cls : str_class) (s : string).

(** [tag.get(k)]: the attribute dict keeps one value per key. *)
Fixpoint attr_get (k : string) (a : attrs) : option string :=
  match a with
  | [] => None
  | (k', v) :: a' => if k =? k' then Some v else attr_get k a'
  end.

Definition get_default (k d : string) (a : attrs) : string :=
  match attr_get k a with Some v => v | None => d end.

Definition node_attrs (n : node) : attrs :=
  match n with Elem _ a _ => a | Str _ _ => [] end.

Definition node_named (names : list string) (n : node) : bool :=
  match n with Elem nm _ _ => str_in nm names | Str _ _ => false end.

Definition interesting (c : str_class) : bool :=
  match c with NavigableString | CData => true | _ => false end.

(** [_all_strings(strip=True)]: the stripped, non-empty, interesting
    strings among the descendants, in document order. *)
Fixpoint all_strings (n : node) : list string :=
  match n with
  | Elem _ _ ch =>
      (fix go (l : list node) : list string :=
         match l with
         | [] => []
         | c :: cs => all_strings c ++ go cs
         end) ch
  | Str c s =>
      if interesting c then
        let t := strip s in if t =? "" then [] else [t]
      else []
  end.

(** [tag.get_text(strip=True)]: the strings joined with the empty separator. *)
Definition get_text (n : node) : string := String.concat "" (all_strings n).

(** [tag.find(name)]: first descendant element with that name, in
    document order (the tag itself excluded). *)
Fixpoint find_desc (nm : string) (n : node) : option node :=
  match n with
  | Str _ _ => None
  | Elem _ _ ch =>
      (fix go (l : list node) : option node :=
         match l with
         | [] => None
         | c :: cs =>
             match (if node_named [nm] c then Some c else find_desc nm c) with
             | Some r => Some r
             | None => go cs
             end
         end) ch
  end.

(** [tag.find_parent(names)] over the chain of parents, nearest first
    (the chain ends with the [BeautifulSoup] object, named "[document]"). *)
Fixpoint find_parent (names : list string) (parents : list node) : option node :=
  match parents with
  | [] => None
  | p :: ps => if node_named names p then Some p else find_parent names ps
  end.

(** A string node as the extractor sees it: its parent's name and its text. *)
Record strnode := mk_strnode { sn_parent : string; sn_text : string }.

Definition parent_name (parents : list node) : string :=
  match parents with
  | Elem nm _ _ :: _ => nm
  | _ => ""
  end.

(** Document order: an [<img>] start tag, or a string with its parent. *)
Inductive event :=
| EvImg (a : attrs) (parents : list node)
| EvStr (sn : strnode).

Fixpoint walk (parents : list node) (n : node) : list event :=
  match n with
  | Elem nm a ch =>
      (if nm =? "img" then [EvImg a parents] else []) ++
      (fix go (l : list node) : list event :=
         match l with
         | [] => []
         | c :: cs => walk (n :: parents) c ++ go cs
         end) ch
  | Str _ s => [EvStr (mk_strnode (parent_name parents) s)]
  end.

(** What the code queries on one [<img>] tag: its attributes, its parents
    (nearest first), the strings [find_previous(string=True)] visits
    (nearest first) and those [find_next(string=True)] visits. *)
Record img_view := mk_img_view {
  img_attrs : attrs;
  img_parents : list node;
  img_prev : list strnode;
  img_next : list strnode
}.

(** [find_next(string=True)] / [find_previous(string=True)] go through
    [_find_all], which skips falsy elements ([if i:]): an empty string is
    never returned. *)
Fixpoint strings_of (evs : list event) : list strnode :=
  match evs with
  | [] => []
  | EvStr sn :: rest =>
      if py_truthy (sn_text sn) then sn :: strings_of rest else strings_of rest
  | EvImg _ _ :: rest => strings_of rest
  end.

Fixpoint views_aux (before : list strnode) (evs : list event) : list img_view :=
  match evs with
  | [] => []
  | EvImg a ps :: rest =>
      mk_img_view a ps before (strings_of rest) :: views_aux before rest
  | EvStr sn :: rest =>
      views_aux (if py_truthy (sn_text sn) then sn :: before else before) rest
  end.

(** [soup.find_all('img')] on the document root. *)
Definition find_all_img (doc : node) : list img_view := views_aux [] (walk [] doc).

(** ** [_get_surrounding_text] *)

Definition code_patterns : list string :=
  ["{"; "}"; "//"; "/*"; "*/"; "<script"; "<style"; "@media"; "function(";
   "var "; "let "; "const "; ".css"; ".js"; "window."; "document."].

Definition unwanted_parents : list string := ["script"; "style"; "code"; "noscript"].

(** [is_valid_text(element)]; [element.parent] is always a tag here, and a
    tag is truthy, so the parent test is the name test. *)
Definition is_valid_text (e : strnode) : bool :=
  if negb (py_truthy (sn_text e)) then false
  else if str_in (sn_parent e) unwanted_parents then false
  else
    let text := strip (sn_text e) in
    if negb (py_truthy text) then false
    else if existsb (fun pattern => contains pattern text) code_patterns then false
    else true.

(** [while current and len(' '.join(previous_text)) < context_range:]
    the list holds the strings [find_previous(string=True)] visits in turn;
    running out of it is [current] becoming [None]. *)
Fixpoint collect_prev (context_range : nat) (previous_text : list string)
    (current : list strnode) : list string :=
  match current with
  | [] => previous_text
  | e :: rest =>
      if py_truthy (sn_text e) && Nat.ltb (String.length (join_space previous_text)) context_range
      then
        collect_prev context_range
          (if is_valid_text e then strip (sn_text e) :: previous_text else previous_text)
          rest
      else previous_text
  end.

Fixpoint collect_next (context_range : nat) (next_text : list string)
    (current : list strnode) : list string :=
  match current with
  | [] => next_text
  | e :: rest =>
      if py_truthy (sn_text e) && Nat.ltb (String.length (join_space next_text)) context_range
      then
        collect_next context_range
          (if is_valid_text e then next_text ++ [strip (sn_text e)] else next_text)
          rest
      else next_text
  end.

Record text_context := mk_text_context { before : string; after : string }.

Definition get_surrounding_text_range (v : img_view) (context_range : nat) : text_context :=
  mk_text_context
    (join_space (collect_prev context_range [] (img_prev v)))
    (join_space (collect_next context_range [] (img_next v))).

(** Default [context_range = 100]. *)
Definition get_surrounding_text (v : img_view) : text_context :=
  get_surrounding_text_range v 100.

(** ** [_determine_image_role] *)

(** The [role_info] dict; [link_text] and [link_url] are keys that are
    only present for an image inside an [<a>]. *)
Record role_info := mk_role_info {
  is_decorative : bool;
  is_functional : bool;
  is_informative : bool;
  has_caption : bool;
  in_content : bool;
  in_header : bool;
  in_navigation : bool;
  caption_text : string;
  link_text : option string;
  link_url : option string
}.

Definition initial_role_info : role_info :=
  mk_role_info false false false false false false false "" None None.

(** Truthiness of [img_tag.get(k)]: [None] and [""] are falsy. *)
Definition attr_truthy (k : string) (a : attrs) : bool :=
  match attr_get k a with Some v => py_truthy v | None => false end.

(** Truthiness of a found tag ([None] is falsy, a tag always truthy). *)
Definition found (o : option node) : bool :=
  match o with Some _ => true | None => false end.

Definition opt_str_eqb (o : option string) (s : string) : bool :=
  match o with Some v => v =? s | None => false end.

Definition decorative_test (v : img_view) : bool :=
  opt_str_eqb (attr_get "role" (img_attrs v)) "presentation" ||
  opt_str_eqb (attr_get "aria-hidden" (img_attrs v)) "true" ||
  (negb (attr_truthy "alt" (img_attrs v)) &&
   negb (found (find_parent ["a"] (img_parents v)))).

Definition determine_image_role (v : img_view) : role_info :=
  let ps := img_parents v in
  if decorative_test v then
    mk_role_info true false false false false false false "" None None
  else
    let parent_link := find_parent ["a"] ps in
    let functional := found parent_link || found (find_parent ["button"] ps) in
    let '(lt, lu) :=
      if functional then
        match parent_link with
        | Some l => (Some (get_text l), Some (get_default "href" "" (node_attrs l)))
        | None => (None, None)
        end
      else (None, None) in
    let '(hc, ct) :=
      match find_parent ["figure"] ps with
      | Some f =>
          match find_desc "figcaption" f with
          | Some fc => (true, get_text fc)
          | None => (false, "")
          end
      | None => (false, "")
      end in
    let hdr := found (find_parent ["header"] ps) in
    let nav := found (find_parent ["nav"] ps) in
    let cnt := found (find_parent ["article"; "main"; "section"] ps) in
    let informative := negb (false || functional) in
    mk_role_info false functional informative hc cnt hdr nav ct lt lu.

(** ** [extract_image_info] and [generate_alt_text] *)

Inductive role_kind := Decorative | Functional | Informative.

Record link_info := mk_link_info { link_info_text : string; link_info_url : string }.

(** The [image_data] dict before [suggested_alt] is added; the optional
    keys [title], [caption] and [link] are options. *)
Record image_data := mk_image_data {
  src : string;
  existing_alt : string;
  role : role_kind;
  context : text_context;
  title : option string;
  caption : option string;
  link : option link_info
}.

(** The finished dict, with its [suggested_alt] key. *)
Record image_record := mk_image_record {
  rec_data : image_data;
  suggested_alt : string
}.

(** [context_info]: everything the prompt is formatted from.  The prompt
    text is the f-string over these fields, so the call is modelled as
    receiving them. *)
Record context_info := mk_context_info {
  ci_role : string;
  ci_existing_alt : string;
  ci_title : string;
  ci_caption : string;
  ci_before : string;
  ci_after : string;
  ci_link : option (string * string)
}.

(** A content block of the response: a text block, or another block type
    (which has no [.text] attribute). *)
Inductive content_block := TextBlock (text : string) | OtherBlock (type_name : string).

(** What [self.client.messages.create(...)] does: raise an exception with
    a message, or return a response with its content blocks. *)
Inductive outcome := Raised (msg : string) | Returned (content : list content_block).

(** The log of calls made to the service, oldest first. *)
Definition call_log := list context_info.

Definition error_prefix : string := "Error generating alt text: ".

Section Generation.

(** The description service: its answer may depend on every earlier call. *)
Variable client : call_log -> context_info -> outcome.

Definition make_context_info (d : image_data) (r : role_info) : context_info :=
  mk_context_info
    (if is_functional r then "functional" else "informative")
    (existing_alt d)
    (match title d with Some t => t | None => "" end)
    (caption_text r)
    (before (context d))
    (after (context d))
    (if is_functional r then
       Some (match link_text r with Some t => t | None => "" end,
             match link_url r with Some u => u | None => "" end)
     else None).

(** [generate_alt_text(image_data)], with [image_data['role']] the full
    [role_info]; state passing over the call log. *)
Definition generate_alt_text (log : call_log) (d : image_data) (r : role_info)
    : string * call_log :=
  if is_decorative r then ("", log)
  else
    let ci := make_context_info d r in
    let log' := log ++ [ci] in
    match client log ci with
    | Raised m => (append error_prefix m, log')
    | Returned [] => (append error_prefix "list index out of range", log')
    | Returned (OtherBlock ty :: _) =>
        (append error_prefix
           (append "'" (append ty "' object has no attribute 'text'")), log')
    | Returned (TextBlock t :: _) => (strip t, log')
    end.

Definition role_of (r : role_info) : role_kind :=
  if is_decorative r then Decorative
  else if is_functional r then Functional
  else Informative.

(** The body of the [for img in soup.find_all('img')] loop, before the
    generation call. *)
Definition build_image_data (v : img_view) (r : role_info) : image_data :=
  let a := img_attrs v in
  let t := strip (get_default "title" "" a) in
  let lt := match link_text r with Some s => s | None => "" end in
  mk_image_data
    (get_default "src" "" a)
    (get_default "alt" "" a)
    (role_of r)
    (get_surrounding_text v)
    (if py_truthy t then Some t else None)
    (if py_truthy (strip (caption_text r)) then Some (caption_text r) else None)
    (if is_functional r && py_truthy (strip lt) then
       Some (mk_link_info lt (match link_url r with Some u => u | None => "" end))
     else None).

Definition process_image (log : call_log) (v : img_view) : image_record * call_log :=
  let r := determine_image_role v in
  let d := build_image_data v r in
  let '(s, log') := generate_alt_text log d r in
  (mk_image_record d s, log').

Fixpoint extract_loop (log : call_log) (imgs : list img_view)
    : list image_record * call_log :=
  match imgs with
  | [] => ([], log)
  | v :: vs =>
      let '(rec, log1) := process_image log v in
      let '(recs, log2) := extract_loop log1 vs in
      (rec :: recs, log2)
  end.

(** [extract_image_info] on the parsed document. *)
Definition extract_image_info (log : call_log) (doc : node) : list image_record * call_log :=
  extract_loop log (find_all_img doc).

End Generation.

(** ** Derived notions used in the statements *)

(** Number of role flags set in a [role_info]. *)
Definition role_flag_count (r : role_info) : nat :=
  (Nat.b2n (is_decorative r) + Nat.b2n (is_functional r) + Nat.b2n (is_informative r))%nat.

(** ** Helper lemmas *)

Lemma str_in_spec (x : string) (l : list string) : str_in x l = true <-> In x l.
Proof.
  unfold str_in. rewrite existsb_exists. split.
  - intros (y & Hy & Heq). apply String.eqb_eq in Heq. subst. exact Hy.
  - intros H. exists x. split; [exact H | apply String.eqb_refl].
Qed.

Lemma py_truthy_false (s : string) : py_truthy s = false <-> s = "".
Proof.
  unfold py_truthy. destruct (String.eqb_spec s ""); simpl; split; congruence.
Qed.

Lemma strip_empty : strip "" = "".
Proof. reflexivity. Qed.

Lemma opt_str_eqb_spec (o : option string) (s : string) :
  opt_str_eqb o s = true <-> o = Some s.
Proof.
  destruct o as [v|]; simpl.
  - rewrite String.eqb_eq. split; [intros ->|intros H; inversion H]; reflexivity.
  - split; discriminate.
Qed.

Lemma attr_truthy_false (k : string) (a : attrs) :
  attr_truthy k a = false <-> attr_get k a = None \/ attr_get k a = Some "".
Proof.
  unfold attr_truthy. destruct (attr_get k a) as [v|].
  - rewrite py_truthy_false. split.
    + intros ->. right. reflexivity.
    + intros [H|H]; [discriminate | inversion H; reflexivity].
  - split; auto.
Qed.

Lemma found_false (o : option node) : found o = false <-> o = None.
Proof. destruct o; simpl; split; congruence. Qed.

(** Case analysis on every [match] and [if] of the goal. *)
Ltac split_matches :=
  repeat match goal with
  | |- context [match ?x with _ => _ end] => destruct x eqn:?
  end.

Lemma determine_image_role_decorative (v : img_view) :
  is_decorative (determine_image_role v) = decorative_test v.
Proof.
  unfold determine_image_role. destruct (decorative_test v); [reflexivity|].
  split_matches; reflexivity.
Qed.

Lemma skipn_past_cons {A : Type} (l1 l2 : list A) (x : A) :
  skipn (S (List.length l1)) (l1 ++ x :: l2) = l2.
Proof. induction l1 as [|y l1 IH]; simpl; [reflexivity | exact IH]. Qed.

(** Decomposition of the batch loop along a split of the image list. *)
Lemma extract_loop_app (client : call_log -> context_info -> outcome)
    (log : call_log) (pre suf : list img_view) :
  extract_loop client log (pre ++ suf) =
  let '(r1, l1) := extract_loop client log pre in
  let '(r2, l2) := extract_loop client l1 suf in
  (r1 ++ r2, l2).
Proof.
  revert log. induction pre as [|v pre IH]; intros log; simpl.
  - destruct (extract_loop client log suf); reflexivity.
  - destruct (process_image client log v) as [rec log1].
    rewrite IH.
    destruct (extract_loop client log1 pre) as [r1 l1].
    destruct (extract_loop client l1 suf) as [r2 l2].
    reflexivity.
Qed.

Lemma extract_loop_length (client : call_log -> context_info -> outcome)
    (log : call_log) (imgs : list img_view) :
  List.length (fst (extract_loop client log imgs)) = List.length imgs.
Proof.
  revert log. induction imgs as [|v vs IH]; intros log; simpl; [reflexivity|].
  destruct (process_image client log v) as [rec log1].
  specialize (IH log1). destruct (extract_loop client log1 vs) as [rs l2].
  simpl in *. now rewrite IH.
Qed.

(** ** Role classifier *)

(** C1: for every image, exactly one of [is_decorative], [is_functional],
    [is_informative] is set in the [role_info] the classifier returns. *)
Theorem role_flags_exactly_one (v : img_view) :
  role_flag_count (determine_image_role v) = 1%nat.
Proof.
  unfold determine_image_role, role_flag_count.
  destruct (decorative_test v); [reflexivity|].
  split_matches; simpl;
    destruct (found (find_parent ["a"] _) || found (find_parent ["button"] _));
    reflexivity.
Qed.

(** C2: an image is decorative iff its role is "presentation", or its
    aria-hidden is "true", or its alt is absent or empty and it has no
    [<a>] parent.  In particular aria-hidden="true" makes it decorative
    whatever its alt and parents, and an empty alt inside an [<a>] (with
    neither of the two other attributes) does not. *)
Theorem decorative_iff (v : img_view) :
  (is_decorative (determine_image_role v) = true <->
   attr_get "role" (img_attrs v) = Some "presentation" \/
   attr_get "aria-hidden" (img_attrs v) = Some "true" \/
   ((attr_get "alt" (img_attrs v) = None \/ attr_get "alt" (img_attrs v) = Some "") /\
    find_parent ["a"] (img_parents v) = None)) /\
  (attr_get "aria-hidden" (img_attrs v) = Some "true" ->
   is_decorative (determine_image_role v) = true) /\
  (attr_get "role" (img_attrs v) <> Some "presentation" ->
   attr_get "aria-hidden" (img_attrs v) <> Some "true" ->
   attr_get "alt" (img_attrs v) = Some "" ->
   find_parent ["a"] (img_parents v) <> None ->
   is_decorative (determine_image_role v) = false).
Proof.
  rewrite determine_image_role_decorative. unfold decorative_test.
  assert (Hiff : forall b1 b2 b3 b4 (P1 P2 P3 P4 : Prop),
            (b1 = true <-> P1) -> (b2 = true <-> P2) ->
            (b3 = false <-> P3) -> (b4 = false <-> P4) ->
            (b1 || b2 || (negb b3 && negb b4) = true <-> P1 \/ P2 \/ (P3 /\ P4))).
  { intros [] [] [] []; simpl; intros P1 P2 P3 P4 H1 H2 H3 H4;
      rewrite <- H1, <- H2, <- H3, <- H4; intuition congruence. }
  pose proof (Hiff _ _ _ _ _ _ _ _
                (opt_str_eqb_spec (attr_get "role" (img_attrs v)) "presentation")
                (opt_str_eqb_spec (attr_get "aria-hidden" (img_attrs v)) "true")
                (attr_truthy_false "alt" (img_attrs v))
                (found_false (find_parent ["a"] (img_parents v)))) as H.
  split; [exact H|]. split.
  - intros Ha. apply H. auto.
  - intros Hr Hh Ha Hp.
    apply Bool.not_true_is_false. intros E.
    apply H in E. destruct E as [E|[E|[_ E]]]; contradiction.
Qed.

(** C8: a decorative image's [role_info] carries only the decorative flag:
    every other flag false, an empty [caption_text], no link keys. *)
Theorem decorative_role_info_bare (v : img_view) :
  is_decorative (determine_image_role v) = true ->
  determine_image_role v =
  mk_role_info true false false false false false false "" None None.
Proof.
  rewrite determine_image_role_decorative. intros H.
  unfold determine_image_role. rewrite H. reflexivity.
Qed.

(** C10: the emptiness test on alt is on the raw value: an image whose
    role is not "presentation", whose aria-hidden is not "true", whose alt
    is non-empty but only whitespace, with no [<a>] and no [<button>]
    parent, is informative and not decorative. *)
Theorem whitespace_alt_informative (v : img_view) (s : string) :
  attr_get "role" (img_attrs v) <> Some "presentation" ->
  attr_get "aria-hidden" (img_attrs v) <> Some "true" ->
  attr_get "alt" (img_attrs v) = Some s ->
  s <> "" ->
  strip s = "" ->
  find_parent ["a"] (img_parents v) = None ->
  find_parent ["button"] (img_parents v) = None ->
  is_decorative (determine_image_role v) = false /\
  is_informative (determine_image_role v) = true.
Proof.
  intros Hr Hh Ha Hs _ Hpa Hpb.
  assert (Hd : decorative_test v = false).
  { unfold decorative_test.
    destruct (opt_str_eqb (attr_get "role" _) _) eqn:E1;
      [apply opt_str_eqb_spec in E1; contradiction|].
    destruct (opt_str_eqb (attr_get "aria-hidden" _) _) eqn:E2;
      [apply opt_str_eqb_spec in E2; contradiction|].
    unfold attr_truthy. rewrite Ha.
    destruct (py_truthy s) eqn:E3; [reflexivity|].
    apply py_truthy_false in E3. contradiction. }
  unfold determine_image_role. rewrite Hd, Hpa, Hpb. simpl.
  split_matches; split; reflexivity.
Qed.

(** ** Context extractor *)

(** C4: a string node is not valid context iff its stripped text is
    empty, or its parent tag is script, style, code or noscript, or its
    stripped text contains one of the code patterns; so
    "margin: 10px; /* comment */" is refused. *)
Theorem is_valid_text_false_iff (e : strnode) :
  (is_valid_text e = false <->
   strip (sn_text e) = "" \/
   In (sn_parent e) ["script"; "style"; "code"; "noscript"] \/
   (exists pattern, In pattern
      ["{"; "}"; "//"; "/*"; "*/"; "<script"; "<style"; "@media"; "function(";
       "var "; "let "; "const "; ".css"; ".js"; "window."; "document."] /\
    contains pattern (strip (sn_text e)) = true)) /\
  is_valid_text (mk_strnode "p" "margin: 10px; /* comment */") = false.
Proof.
  split; [|reflexivity].
  unfold is_valid_text.
  destruct (py_truthy (sn_text e)) eqn:E1; cbn [negb].
  2:{ apply py_truthy_false in E1. rewrite E1. split; [left; reflexivity | reflexivity]. }
  destruct (str_in (sn_parent e) unwanted_parents) eqn:E2.
  { apply str_in_spec in E2. split; [right; left; exact E2 | reflexivity]. }
  destruct (py_truthy (strip (sn_text e))) eqn:E3; cbn [negb].
  2:{ apply py_truthy_false in E3. split; [left; exact E3 | reflexivity]. }
  destruct (existsb _ code_patterns) eqn:E4.
  - apply existsb_exists in E4. split; [right; right; exact E4 | reflexivity].
  - split; [discriminate|].
    intros [H|[H|H]].
    + apply py_truthy_false in H. congruence.
    + apply str_in_spec in H. unfold unwanted_parents in E2. congruence.
    + apply Bool.not_true_iff_false in E4. exfalso. apply E4.
      apply existsb_exists. exact H.
Qed.

(** The valid fragments of a run of string nodes, stripped, in the order
    [collect_prev] meets them. *)
Definition valid_fragments (cur : list strnode) : list string :=
  map (fun e => strip (sn_text e)) (filter is_valid_text cur).

(** The backward walk over the valid fragments alone: the budget test
    before each fragment is added. *)
Fixpoint collect_frags_prev (context_range : nat) (acc fs : list string) : list string :=
  match fs with
  | [] => acc
  | f :: r =>
      if Nat.ltb (String.length (join_space acc)) context_range
      then collect_frags_prev context_range (f :: acc) r
      else acc
  end.

Fixpoint collect_frags_next (context_range : nat) (acc fs : list string) : list string :=
  match fs with
  | [] => acc
  | f :: r =>
      if Nat.ltb (String.length (join_space acc)) context_range
      then collect_frags_next context_range (acc ++ [f]) r
      else acc
  end.

(** With no empty string on the way, the backward walk stops only at the
    budget or at the end of the strings, and then holds every valid
    fragment in document order. *)
Lemma collect_prev_budget (context_range : nat) (acc : list string) (cur : list strnode) :
  (forall e, In e cur -> sn_text e <> "") ->
  context_range <= String.length (join_space (collect_prev context_range acc cur)) \/
  collect_prev context_range acc cur = rev (valid_fragments cur) ++ acc.
Proof.
  revert acc. induction cur as [|e rest IH]; intros acc Hne; simpl.
  - right. reflexivity.
  - assert (Ht : py_truthy (sn_text e) = true).
    { apply Bool.not_false_iff_true. rewrite py_truthy_false. apply Hne. left. reflexivity. }
    rewrite Ht. simpl.
    destruct (Nat.ltb (String.length (join_space acc)) context_range) eqn:El.
    + destruct (IH (if is_valid_text e then strip (sn_text e) :: acc else acc))
        as [H|H]; [intros x Hx; apply Hne; right; exact Hx | left; exact H |].
      right. rewrite H. unfold valid_fragments. simpl.
      destruct (is_valid_text e); simpl; [|reflexivity].
      rewrite <- app_assoc. reflexivity.
    + left. apply Nat.ltb_ge in El. exact El.
Qed.

(** [<p>Intro text</p><pre><!----></pre><img alt="x">]: an empty comment
    between the image and the text before it. *)
Definition c3_doc : node :=
  Elem "[document]" [] [
    Elem "p" [] [Str NavigableString "Intro text"];
    Elem "pre" [] [Str Comment ""];
    Elem "img" [("alt", "x")] []].

(** ** Captions and links *)

Lemma role_info_caption (v : img_view) :
  decorative_test v = false ->
  (has_caption (determine_image_role v), caption_text (determine_image_role v)) =
  match find_parent ["figure"] (img_parents v) with
  | Some f =>
      match find_desc "figcaption" f with
      | Some fc => (true, get_text fc)
      | None => (false, "")
      end
  | None => (false, "")
  end.
Proof.
  intros Hd. unfold determine_image_role. rewrite Hd.
  split_matches; reflexivity.
Qed.

Lemma role_info_link (v : img_view) :
  link_text (determine_image_role v) =
    (if is_functional (determine_image_role v)
     then option_map get_text (find_parent ["a"] (img_parents v)) else None) /\
  link_url (determine_image_role v) =
    (if is_functional (determine_image_role v)
     then option_map (fun l => get_default "href" "" (node_attrs l))
            (find_parent ["a"] (img_parents v))
     else None).
Proof.
  unfold determine_image_role. destruct (decorative_test v); [split; reflexivity|].
  destruct (find_parent ["a"] (img_parents v));
    destruct (find_parent ["button"] (img_parents v)); simpl;
    split_matches; simpl in *; try discriminate; split; reflexivity.
Qed.

Lemma rec_data_process_image (client : call_log -> context_info -> outcome)
    (log : call_log) (v : img_view) :
  rec_data (fst (process_image client log v)) =
  build_image_data v (determine_image_role v).
Proof.
  unfold process_image.
  destruct (generate_alt_text client log _ _). reflexivity.
Qed.

(** An image in a figure whose figcaption holds only whitespace:
    [<figure><img alt="y"><figcaption>  </figcaption></figure>]. *)
Definition c5_doc : node :=
  Elem "[document]" [] [
    Elem "figure" [] [
      Elem "img" [("alt", "y")] [];
      Elem "figcaption" [] [Str NavigableString "  "]]].

(** C5 (as stated, refuted): the non-decorative image of [c5_doc] gets
    [has_caption] true with an empty [caption_text]. *)
Lemma c5_blank_figcaption_has_caption :
  map (fun v => let r := determine_image_role v in
                (is_decorative r, has_caption r, caption_text r))
      (find_all_img c5_doc) = [(false, true, "")].
Proof. vm_compute. reflexivity. Qed.

(** C5 (amended): for a non-decorative image, [has_caption] is true iff
    the nearest [<figure>] parent has a [<figcaption>] descendant, whatever
    its text, and [caption_text] is then that figcaption's stripped text
    (possibly empty); otherwise [has_caption] is false and [caption_text]
    empty.  The record's caption is present only with a true [has_caption]
    and a non-empty text, which is [caption_text]. *)
Theorem caption_from_figcaption (v : img_view) :
  is_decorative (determine_image_role v) = false ->
  ((has_caption (determine_image_role v) = true /\
    exists f fc, find_parent ["figure"] (img_parents v) = Some f /\
                 find_desc "figcaption" f = Some fc /\
                 caption_text (determine_image_role v) = get_text fc) \/
   (has_caption (determine_image_role v) = false /\
    caption_text (determine_image_role v) = "" /\
    forall f, find_parent ["figure"] (img_parents v) = Some f ->
              find_desc "figcaption" f = None)) /\
  (forall client log c,
     caption (rec_data (fst (process_image client log v))) = Some c ->
     has_caption (determine_image_role v) = true /\
     c = caption_text (determine_image_role v) /\ strip c <> "").
Proof.
  intros Hdec. rewrite determine_image_role_decorative in Hdec.
  pose proof (role_info_caption v Hdec) as Hc.
  assert (Hcap : caption_text (determine_image_role v) = "" \/
                 has_caption (determine_image_role v) = true).
  { destruct (find_parent ["figure"] (img_parents v)) as [f|];
      [destruct (find_desc "figcaption" f)|]; inversion Hc; auto. }
  split.
  - destruct (find_parent ["figure"] (img_parents v)) as [f|] eqn:Ef.
    + destruct (find_desc "figcaption" f) as [fc|] eqn:Efc;
        injection Hc as H1 H2.
      * left. split; [exact H1|]. exists f, fc. auto.
      * right. split; [exact H1|]. split; [exact H2|].
        intros f' Hf'. injection Hf' as <-. exact Efc.
    + injection Hc as H1 H2. right. split; [exact H1|]. split; [exact H2|].
      discriminate.
  - intros client log c Hr. rewrite rec_data_process_image in Hr.
    unfold build_image_data in Hr. simpl in Hr.
    destruct (py_truthy (strip (caption_text (determine_image_role v)))) eqn:Et;
      [|discriminate].
    inversion Hr as [Hrc]. subst c.
    assert (Hne : strip (caption_text (determine_image_role v)) <> "").
    { intros H. apply py_truthy_false in H. congruence. }
    split; [|split; [reflexivity | exact Hne]].
    destruct Hcap as [H|H]; [|exact H].
    exfalso. apply Hne. rewrite H. reflexivity.
Qed.

(** C6: the optional keys of a record are absent rather than empty:
    [title] is there iff the stripped title attribute is non-empty (and is
    that stripped value); [caption] iff the stripped [caption_text] is
    non-empty; [link] iff the image is functional and its [<a>] parent's
    stripped text is non-empty (a whitespace-only anchor gives no link). *)
Theorem optional_fields_absent_when_empty
    (client : call_log -> context_info -> outcome) (log : call_log) (v : img_view) :
  let r := determine_image_role v in
  let d := rec_data (fst (process_image client log v)) in
  let a := img_attrs v in
  (forall t, title d = Some t -> t = strip (get_default "title" "" a) /\ t <> "") /\
  (title d = None <-> strip (get_default "title" "" a) = "") /\
  (forall c, caption d = Some c -> c = caption_text r /\ strip c <> "") /\
  (caption d = None <-> strip (caption_text r) = "") /\
  (forall l, link d = Some l ->
     is_functional r = true /\
     exists an, find_parent ["a"] (img_parents v) = Some an /\
       link_info_text l = get_text an /\ strip (get_text an) <> "" /\
       link_info_url l = get_default "href" "" (node_attrs an)) /\
  (link d = None <->
     ~ (is_functional r = true /\
        exists an, find_parent ["a"] (img_parents v) = Some an /\
                   strip (get_text an) <> "")).
Proof.
  intros r d a. subst d. rewrite rec_data_process_image. fold r.
  unfold build_image_data. cbn [title caption link]. fold a.
  destruct (role_info_link v) as [Hlt Hlu]. fold r in Hlt, Hlu.
  split; [|split; [|split; [|split; [|split]]]].
  - destruct (py_truthy (strip (get_default "title" "" a))) eqn:E; [|discriminate].
    intros t H. injection H as <-. split; [reflexivity|].
    intros H. rewrite H in E. discriminate.
  - destruct (py_truthy (strip (get_default "title" "" a))) eqn:E.
    + split; [discriminate|]. intros H. rewrite H in E. discriminate.
    + split; [|reflexivity]. intros _. apply py_truthy_false. exact E.
  - destruct (py_truthy (strip (caption_text r))) eqn:E; [|discriminate].
    intros c H. injection H as <-. split; [reflexivity|].
    intros H. rewrite H in E. discriminate.
  - destruct (py_truthy (strip (caption_text r))) eqn:E.
    + split; [discriminate|]. intros H. rewrite H in E. discriminate.
    + split; [|reflexivity]. intros _. apply py_truthy_false. exact E.
  - destruct (is_functional r) eqn:Ef; [|discriminate].
    destruct (find_parent ["a"] (img_parents v)) as [an|] eqn:Ea; simpl in Hlt, Hlu;
      rewrite Hlt, Hlu; simpl.
    + destruct (py_truthy (strip (get_text an))) eqn:E; [|discriminate].
      intros l H. injection H as <-. split; [reflexivity|].
      exists an. split; [reflexivity|]. split; [reflexivity|].
      split; [|reflexivity].
      intros H. rewrite H in E. discriminate.
    + discriminate.
  - destruct (is_functional r) eqn:Ef; simpl.
    + destruct (find_parent ["a"] (img_parents v)) as [an|] eqn:Ea; simpl in Hlt, Hlu;
        rewrite Hlt, Hlu; simpl.
      * destruct (py_truthy (strip (get_text an))) eqn:E.
        -- split; [discriminate|]. intros H. exfalso. apply H.
           split; [reflexivity|]. exists an. split; [reflexivity|].
           intros H'. rewrite H' in E. discriminate.
        -- split; [|reflexivity].
           intros _ [_ (an' & Han & Hne)]. injection Han as <-.
           apply Hne, py_truthy_false, E.
      * split; [|reflexivity]. intros _ [_ (an' & Han & _)]. discriminate.
    + split; [|reflexivity]. intros _ [H _]. discriminate.
Qed.

(** ** Generation *)

(** C7: for a decorative image the record's [suggested_alt] is "" and the
    call log is left as it was: the service is not called. *)
Theorem decorative_no_generation
    (client : call_log -> context_info -> outcome) (log : call_log) (v : img_view) :
  is_decorative (determine_image_role v) = true ->
  process_image client log v =
  (mk_image_record (build_image_data v (determine_image_role v)) "", log).
Proof.
  intros H. unfold process_image, generate_alt_text. rewrite H. reflexivity.
Qed.

(** C9: when the call made for one non-decorative image raises, the batch
    goes on: there is still one record per image, the records before it are
    unchanged, its [suggested_alt] is the error string, and the images after
    it are processed as usual with the call logged. *)
Theorem generation_failure_isolated
    (client : call_log -> context_info -> outcome) (log : call_log)
    (pre : list img_view) (v : img_view) (suf : list img_view) (m : string) :
  let r := determine_image_role v in
  let ci := make_context_info (build_image_data v r) r in
  let log_pre := snd (extract_loop client log pre) in
  is_decorative r = false ->
  client log_pre ci = Raised m ->
  let rs := fst (extract_loop client log (pre ++ v :: suf)) in
  List.length rs = List.length (pre ++ v :: suf) /\
  firstn (List.length pre) rs = fst (extract_loop client log pre) /\
  (exists rec, nth_error rs (List.length pre) = Some rec /\
               suggested_alt rec = append error_prefix m) /\
  skipn (S (List.length pre)) rs = fst (extract_loop client (log_pre ++ [ci]) suf).
Proof.
  intros r ci log_pre Hdec Hcl rs.
  assert (Hlen : List.length rs = List.length (pre ++ v :: suf))
    by apply extract_loop_length.
  split; [exact Hlen|].
  pose proof (extract_loop_length client log pre) as Hlp.
  subst rs. rewrite extract_loop_app in *.
  subst log_pre. destruct (extract_loop client log pre) as [r1 l1]. simpl in *.
  assert (Hstep : process_image client l1 v =
    (mk_image_record (build_image_data v r) (append error_prefix m), l1 ++ [ci])).
  { unfold process_image, generate_alt_text. fold r. rewrite Hdec. fold ci.
    rewrite Hcl. reflexivity. }
  rewrite Hstep.
  destruct (extract_loop client (l1 ++ [ci]) suf) as [r2 l2]. simpl.
  rewrite <- Hlp. split; [|split].
  - rewrite firstn_app, Nat.sub_diag, firstn_O, app_nil_r, firstn_all. reflexivity.
  - exists (mk_image_record (build_image_data v r) (append error_prefix m)).
    rewrite nth_error_app2, Nat.sub_diag by lia. split; reflexivity.
  - apply skipn_past_cons.
Qed.

(** ** Witnesses on concrete documents *)

Definition no_view : img_view := mk_img_view [] [] [] [].

(** [<p>Before <a href="/home"><img alt="logo" aria-hidden="true"></a> after</p>] *)
Definition w_doc_hidden : node :=
  Elem "[document]" [] [
    Elem "p" [] [
      Str NavigableString "Before ";
      Elem "a" [("href", "/home")] [Elem "img" [("alt", "logo"); ("aria-hidden", "true")] []];
      Str NavigableString " after"]].

(** [<main><p>Sales</p><img alt=" " src="c.png"></main>] *)
Definition w_doc_blank_alt : node :=
  Elem "[document]" [] [
    Elem "main" [] [
      Elem "p" [] [Str NavigableString "Sales"];
      Elem "img" [("alt", " "); ("src", "c.png")] []]].

(** [<figure><img alt="chart"><figcaption>Q3 sales</figcaption></figure>] *)
Definition w_doc_figure : node :=
  Elem "[document]" [] [
    Elem "figure" [] [
      Elem "img" [("alt", "chart")] [];
      Elem "figcaption" [] [Str NavigableString "Q3 sales"]]].

Definition w_timeout_client : call_log -> context_info -> outcome :=
  fun _ _ => Raised "Read timed out.".

Lemma decorative_role_info_bare_witness :
  let v := hd no_view (find_all_img w_doc_hidden) in
  is_decorative (determine_image_role v) = true /\
  determine_image_role v =
  mk_role_info true false false false false false false "" None None.
Proof.
  intros v. split; [vm_compute; reflexivity|].
  apply (decorative_role_info_bare v). vm_compute. reflexivity.
Defined.

Lemma whitespace_alt_informative_witness :
  let v := hd no_view (find_all_img w_doc_blank_alt) in
  attr_get "alt" (img_attrs v) = Some " " /\
  is_decorative (determine_image_role v) = false /\
  is_informative (determine_image_role v) = true.
Proof.
  intros v. split; [vm_compute; reflexivity|].
  apply (whitespace_alt_informative v " ");
    vm_compute; try reflexivity; discriminate.
Defined.

Lemma caption_from_figcaption_witness :
  let v := hd no_view (find_all_img w_doc_figure) in
  is_decorative (determine_image_role v) = false /\
  caption_text (determine_image_role v) = "Q3 sales" /\
  ((has_caption (determine_image_role v) = true /\
    exists f fc, find_parent ["figure"] (img_parents v) = Some f /\
                 find_desc "figcaption" f = Some fc /\
                 caption_text (determine_image_role v) = get_text fc) \/
   (has_caption (determine_image_role v) = false /\
    caption_text (determine_image_role v) = "" /\
    forall f, find_parent ["figure"] (img_parents v) = Some f ->
              find_desc "figcaption" f = None)).
Proof.
  intros v. split; [vm_compute; reflexivity|]. split; [vm_compute; reflexivity|].
  apply (caption_from_figcaption v). vm_compute. reflexivity.
Defined.

Lemma decorative_no_generation_witness :
  let v := hd no_view (find_all_img w_doc_hidden) in
  is_decorative (determine_image_role v) = true /\
  process_image w_timeout_client [] v =
  (mk_image_record (build_image_data v (determine_image_role v)) "", []).
Proof.
  intros v. split; [vm_compute; reflexivity|].
  apply (decorative_no_generation w_timeout_client [] v). vm_compute. reflexivity.
Defined.

Lemma generation_failure_isolated_witness :
  let v := hd no_view (find_all_img w_doc_figure) in
  let r := determine_image_role v in
  let ci := make_context_info (build_image_data v r) r in
  is_decorative r = false /\
  w_timeout_client [] ci = Raised "Read timed out." /\
  (exists rec, nth_error (fst (extract_loop w_timeout_client [] ([] ++ [v; v])))
                         (List.length (@nil img_view)) = Some rec /\
               suggested_alt rec = append error_prefix "Read timed out.").
Proof.
  intros v r ci. split; [vm_compute; reflexivity|]. split; [reflexivity|].
  destruct (generation_failure_isolated w_timeout_client [] [] v [v]
              "Read timed out.") as (_ & _ & H & _);
    [vm_compute; reflexivity | reflexivity | exact H].
Defined.

(** ** [save_to_json] *)

(** [s.replace(old, new)] for a non-empty [old]: occurrences replaced
    left to right without overlap; [skip] counts the characters of an
    occurrence already replaced. *)
Fixpoint replace_go (old new : string) (skip : nat) (s : string) : string :=
  match s with
  | EmptyString => EmptyString
  | String c s' =>
      match skip with
      | S k => replace_go old new k s'
      | O =>
          if prefix old s then append new (replace_go old new (String.length old - 1) s')
          else String c (replace_go old new 0 s')
      end
  end.

Definition py_replace (s old new : string) : string := replace_go old new 0 s.

(** [safe_url] in [save_to_json]. *)
Definition safe_url (url : string) : string :=
  py_replace (py_replace (py_replace url "https://" "") "http://" "") "/" "_".

(** The file name [save_to_json] writes to, for the [strftime] stamp. *)
Definition json_filename (url timestamp : string) : string :=
  append "output/image_analysis_"
    (append (safe_url url) (append "_" (append timestamp ".json"))).

(** ** Counting images *)

(** Number of [<img>] elements in a tree. *)
Fixpoint count_img (n : node) : nat :=
  match n with
  | Str _ _ => 0
  | Elem nm _ ch =>
      ((if String.eqb nm "img" then 1 else 0) +
       (fix go (l : list node) : nat :=
          match l with
          | [] => 0
          | c :: cs => count_img c + go cs
          end) ch)%nat
  end.

Fixpoint count_img_events (evs : list event) : nat :=
  match evs with
  | [] => 0
  | EvImg _ _ :: rest => S (count_img_events rest)
  | EvStr _ :: rest => count_img_events rest
  end.

(** Induction on trees, with the hypothesis on every child. *)
Section NodeInd.
Variable P : node -> Prop.
Hypothesis HStr : forall c s, P (Str c s).
Hypothesis HElem : forall nm a ch, Forall P ch -> P (Elem nm a ch).
Fixpoint node_ind_deep (n : node) : P n :=
  match n with
  | Str c s => HStr c s
  | Elem nm a ch =>
      HElem nm a ch
        ((fix go (l : list node) : Forall P l :=
            match l with
            | [] => Forall_nil P
            | c :: cs => Forall_cons c (node_ind_deep c) (go cs)
            end) ch)
  end.
End NodeInd.

(** The service call made for each non-decorative image, in order. *)
Definition calls_for (imgs : list img_view) : list context_info :=
  map (fun v => make_context_info (build_image_data v (determine_image_role v))
                  (determine_image_role v))
      (filter (fun v => negb (is_decorative (determine_image_role v))) imgs).

(** ** Further properties of the code *)

Lemma walk_elem (ps : list node) (nm : string) (a : attrs) (ch : list node) :
  walk ps (Elem nm a ch) =
  (if nm =? "img" then [EvImg a ps] else []) ++
  flat_map (walk (Elem nm a ch :: ps)) ch.
Proof. reflexivity. Qed.

Lemma count_img_elem (nm : string) (a : attrs) (ch : list node) :
  count_img (Elem nm a ch) =
  ((if String.eqb nm "img" then 1 else 0) + list_sum (map count_img ch))%nat.
Proof.
  simpl. f_equal. induction ch as [|c cs IH]; simpl; [reflexivity|].
  rewrite IH. reflexivity.
Qed.

Lemma count_img_events_app (e1 e2 : list event) :
  count_img_events (e1 ++ e2) = (count_img_events e1 + count_img_events e2)%nat.
Proof.
  induction e1 as [|[a ps|sn] e1 IH]; simpl; rewrite ?IH; reflexivity.
Qed.

Lemma walk_count (n : node) :
  forall ps, count_img_events (walk ps n) = count_img n.
Proof.
  induction n as [c s|nm a ch Hch] using node_ind_deep; intros ps.
  - reflexivity.
  - rewrite walk_elem, count_img_elem, count_img_events_app.
    assert (Hl : count_img_events (flat_map (walk (Elem nm a ch :: ps)) ch) =
                 list_sum (map count_img ch)).
    { generalize (Elem nm a ch :: ps) as qs.
      induction Hch as [|c cs Hc _ IH]; intros qs; simpl; [reflexivity|].
      rewrite count_img_events_app, Hc, IH. reflexivity. }
    rewrite Hl. destruct (nm =? "img"); reflexivity.
Qed.
Lemma views_aux_length (before : list strnode) (evs : list event) :
  List.length (views_aux before evs) = count_img_events evs.
Proof.
  revert before. induction evs as [|[a ps|sn] evs IH]; intros before; simpl;
    rewrite ?IH; reflexivity.
Qed.


(** The images of a document: [find_all_img] yields one view per [<img>]
    element, and the batch one record per [<img>] element, however deeply
    nested. *)
Theorem extract_image_info_one_record_per_img
    (client : call_log -> context_info -> outcome) (log : call_log) (doc : node) :
  List.length (fst (extract_image_info client log doc)) = count_img doc.
Proof.
  unfold extract_image_info. rewrite extract_loop_length.
  unfold find_all_img. rewrite views_aux_length. apply walk_count.
Qed.


Lemma collect_prev_prefix (context_range : nat) (acc : list string) (cur : list strnode) :
  exists k, collect_prev context_range acc cur = rev (valid_fragments (firstn k cur)) ++ acc.
Proof.
  revert acc. induction cur as [|e rest IH]; intros acc; simpl.
  - exists 0%nat. reflexivity.
  - destruct (py_truthy (sn_text e) && _).
    + destruct (IH (if is_valid_text e then strip (sn_text e) :: acc else acc)) as [k Hk].
      exists (S k). rewrite Hk. unfold valid_fragments. simpl.
      destruct (is_valid_text e); simpl; [|reflexivity].
      rewrite <- app_assoc. reflexivity.
    + exists 0%nat. reflexivity.
Qed.

Lemma collect_next_prefix (context_range : nat) (acc : list string) (cur : list strnode) :
  exists k, collect_next context_range acc cur = acc ++ valid_fragments (firstn k cur).
Proof.
  revert acc. induction cur as [|e rest IH]; intros acc; simpl.
  - exists 0%nat. rewrite app_nil_r. reflexivity.
  - destruct (py_truthy (sn_text e) && _).
    + destruct (IH (if is_valid_text e then acc ++ [strip (sn_text e)] else acc)) as [k Hk].
      exists (S k). rewrite Hk. unfold valid_fragments. simpl.
      destruct (is_valid_text e); simpl; [|reflexivity].
      rewrite <- app_assoc. reflexivity.
    + exists 0%nat. rewrite app_nil_r. reflexivity.
Qed.

(** The context of an image is made of valid fragments only, stripped, in
    document order: [before] joins the valid fragments among the nearest
    [k] strings before the image, [after] those among the first [j]
    strings after it. *)
Theorem surrounding_text_valid_prefixes (v : img_view) (context_range : nat) :
  exists k j,
    before (get_surrounding_text_range v context_range) =
      join_space (rev (valid_fragments (firstn k (img_prev v)))) /\
    after (get_surrounding_text_range v context_range) =
      join_space (valid_fragments (firstn j (img_next v))).
Proof.
  destruct (collect_prev_prefix context_range [] (img_prev v)) as [k Hk].
  destruct (collect_next_prefix context_range [] (img_next v)) as [j Hj].
  exists k, j. unfold get_surrounding_text_range. simpl.
  rewrite Hk, Hj, app_nil_r. split; reflexivity.
Qed.

Lemma str_length_append (s1 s2 : string) :
  String.length (append s1 s2) = (String.length s1 + String.length s2)%nat.
Proof. induction s1 as [|c s1 IH]; simpl; [reflexivity | rewrite IH; reflexivity]. Qed.

Lemma join_space_cons_eq (y : string) (l : list string) :
  l <> [] ->
  String.length (join_space (y :: l)) =
  (String.length y + 1 + String.length (join_space l))%nat.
Proof.
  intros H. destruct l as [|z l]; [contradiction|].
  unfold join_space. change (String.concat " " (y :: z :: l))
    with (append y (append " " (String.concat " " (z :: l)))).
  rewrite !str_length_append. simpl. lia.
Qed.

Lemma join_space_cons_length (x : string) (l : list string) :
  String.length (join_space (x :: l)) <=
  String.length x + 1 + String.length (join_space l).
Proof.
  destruct l as [|y l].
  - unfold join_space. simpl. lia.
  - rewrite join_space_cons_eq by discriminate. lia.
Qed.

Lemma join_space_snoc_length (l : list string) (x : string) :
  String.length (join_space (l ++ [x])) <=
  String.length (join_space l) + 1 + String.length x.
Proof.
  induction l as [|y l IH]; [unfold join_space; simpl; lia|].
  simpl. rewrite join_space_cons_eq by (destruct l; discriminate).
  destruct l as [|z l].
  - unfold join_space. simpl. lia.
  - rewrite (join_space_cons_eq y (z :: l)) by discriminate. lia.
Qed.

Lemma collect_prev_bound (context_range L : nat) (acc : list string) (cur : list strnode) :
  (forall e, In e cur -> String.length (strip (sn_text e)) <= L) ->
  String.length (join_space acc) <= context_range + L ->
  String.length (join_space (collect_prev context_range acc cur)) <= context_range + L.
Proof.
  revert acc. induction cur as [|e rest IH]; intros acc HL Hacc; simpl; [exact Hacc|].
  destruct (py_truthy (sn_text e)); simpl; [|exact Hacc].
  destruct (Nat.ltb (String.length (join_space acc)) context_range) eqn:El; [|exact Hacc].
  apply Nat.ltb_lt in El.
  apply IH; [intros x Hx; apply HL; right; exact Hx|].
  destruct (is_valid_text e); [|exact Hacc].
  pose proof (join_space_cons_length (strip (sn_text e)) acc).
  pose proof (HL e (or_introl eq_refl)). lia.
Qed.

Lemma collect_next_bound (context_range L : nat) (acc : list string) (cur : list strnode) :
  (forall e, In e cur -> String.length (strip (sn_text e)) <= L) ->
  String.length (join_space acc) <= context_range + L ->
  String.length (join_space (collect_next context_range acc cur)) <= context_range + L.
Proof.
  revert acc. induction cur as [|e rest IH]; intros acc HL Hacc; simpl; [exact Hacc|].
  destruct (py_truthy (sn_text e)); simpl; [|exact Hacc].
  destruct (Nat.ltb (String.length (join_space acc)) context_range) eqn:El; [|exact Hacc].
  apply Nat.ltb_lt in El.
  apply IH; [intros x Hx; apply HL; right; exact Hx|].
  destruct (is_valid_text e); [|exact Hacc].
  pose proof (join_space_snoc_length acc (strip (sn_text e))).
  pose proof (HL e (or_introl eq_refl)). lia.
Qed.

(** The budget is overshot by at most one fragment: when every stripped
    string around the image has at most [L] characters, [before] and
    [after] have at most [context_range + L] characters each. *)
Theorem surrounding_text_overshoot_bound (v : img_view) (context_range L : nat) :
  (forall e, In e (img_prev v) -> String.length (strip (sn_text e)) <= L) ->
  (forall e, In e (img_next v) -> String.length (strip (sn_text e)) <= L) ->
  String.length (before (get_surrounding_text_range v context_range)) <= context_range + L /\
  String.length (after (get_surrounding_text_range v context_range)) <= context_range + L.
Proof.
  intros Hp Hn. unfold get_surrounding_text_range. simpl. split.
  - apply collect_prev_bound; [exact Hp | simpl; lia].
  - apply collect_next_bound; [exact Hn | simpl; lia].
Qed.

(** ** Generation and the batch *)

Lemma generate_alt_text_log
    (client : call_log -> context_info -> outcome) (log : call_log)
    (d : image_data) (r : role_info) :
  is_decorative r = false ->
  snd (generate_alt_text client log d r) = log ++ [make_context_info d r].
Proof.
  intros H. unfold generate_alt_text. rewrite H.
  destruct (client log (make_context_info d r)) as [m|[|[t|ty] rest]]; reflexivity.
Qed.


(** Over a batch, the service is called once per non-decorative image, in
    document order, and never for a decorative one. *)
Theorem extract_loop_calls
    (client : call_log -> context_info -> outcome) (log : call_log) (imgs : list img_view) :
  snd (extract_loop client log imgs) = log ++ calls_for imgs.
Proof.
  revert log. induction imgs as [|v vs IH]; intros log; simpl.
  - rewrite app_nil_r. reflexivity.
  - unfold process_image.
    destruct (is_decorative (determine_image_role v)) eqn:Hd.
    + unfold generate_alt_text at 1. rewrite Hd. simpl.
      specialize (IH log). destruct (extract_loop client log vs). simpl in *.
      unfold calls_for. simpl. rewrite Hd. exact IH.
    + pose proof (generate_alt_text_log client log
                    (build_image_data v (determine_image_role v))
                    (determine_image_role v) Hd) as Hs.
      destruct (generate_alt_text client log _ _) as [s log1]. simpl in Hs. subst log1.
      specialize (IH (log ++ [make_context_info (build_image_data v (determine_image_role v))
                                (determine_image_role v)])).
      destruct (extract_loop client _ vs). simpl in *. rewrite IH.
      unfold calls_for. simpl. rewrite Hd. simpl. rewrite <- app_assoc. reflexivity.
Qed.

(** A functional image inside a [<button>] and no [<a>] has no [link] in
    its record, yet the service is told [link = {'text': '', 'url': ''}]. *)
Theorem button_image_functional_without_link
    (client : call_log -> context_info -> outcome) (log : call_log)
    (v : img_view) (b : node) :
  is_decorative (determine_image_role v) = false ->
  find_parent ["a"] (img_parents v) = None ->
  find_parent ["button"] (img_parents v) = Some b ->
  let r := determine_image_role v in
  let d := rec_data (fst (process_image client log v)) in
  role d = Functional /\ link d = None /\
  ci_link (make_context_info d r) = Some ("", "").
Proof.
  intros Hd Ha Hb r d. subst d. rewrite rec_data_process_image. fold r.
  rewrite determine_image_role_decorative in Hd.
  assert (Hf : is_functional r = true).
  { subst r. unfold determine_image_role. rewrite Hd, Ha, Hb. simpl.
    split_matches; reflexivity. }
  destruct (role_info_link v) as [Hlt Hlu]. fold r in Hlt, Hlu.
  rewrite Hf, Ha in Hlt, Hlu. simpl in Hlt, Hlu.
  assert (Hd' : is_decorative r = false)
    by (subst r; rewrite determine_image_role_decorative; exact Hd).
  unfold build_image_data, make_context_info, role_of. simpl.
  rewrite Hd', Hf, Hlt, Hlu. simpl. split; [reflexivity|]. split; reflexivity.
Qed.

Lemma prefix_one (d c : ascii) (x : string) :
  prefix (String d "") (String c x) = if ascii_dec d c then true else false.
Proof. simpl. destruct (ascii_dec d c); [destruct x|]; reflexivity. Qed.

Lemma contains_cons (p : string) (c : ascii) (x : string) :
  contains p (String c x) = prefix p (String c x) || contains p x.
Proof. reflexivity. Qed.

Lemma contains_slash_append (a b : string) :
  contains "/" (append a b) = contains "/" a || contains "/" b.
Proof.
  induction a as [|c a IH].
  - destruct b; reflexivity.
  - change (append (String c a) b) with (String c (append a b)).
    rewrite !contains_cons, !prefix_one, IH.
    destruct (ascii_dec "/" c); [reflexivity|].
    destruct (contains "/" a); reflexivity.
Qed.

Lemma replace_slash_no_slash (s : string) :
  contains "/" (replace_go "/" "_" 0 s) = false.
Proof.
  induction s as [|c s IH]; [reflexivity|].
  change (replace_go "/" "_" 0 (String c s))
    with (if prefix "/" (String c s) then append "_" (replace_go "/" "_" 0 s)
          else String c (replace_go "/" "_" 0 s)).
  rewrite prefix_one. destruct (ascii_dec "/" c) as [E|E].
  - exact IH.
  - rewrite contains_cons, prefix_one, IH.
    destruct (ascii_dec "/" c); [contradiction | reflexivity].
Qed.

(** The report file [save_to_json] writes is always directly inside
    [output/]: once the stamp has no '/', the name after "output/" has
    none, whatever the URL. *)
Theorem json_filename_in_output_dir (url timestamp : string) :
  contains "/" timestamp = false ->
  exists rest, json_filename url timestamp = append "output/" rest /\
               contains "/" rest = false.
Proof.
  intros Ht.
  exists (append "image_analysis_"
            (append (safe_url url) (append "_" (append timestamp ".json")))).
  split; [reflexivity|].
  rewrite !contains_slash_append, Ht.
  unfold safe_url, py_replace. rewrite replace_slash_no_slash. reflexivity.
Qed.

(** [<button><img alt="Search"></button>] *)
Definition w_button : node := Elem "button" [] [Elem "img" [("alt", "Search")] []].
Definition w_doc_button : node := Elem "[document]" [] [w_button].


Lemma surrounding_text_overshoot_bound_witness :
  let v := hd no_view (find_all_img w_doc_hidden) in
  (forall e, In e (img_prev v) -> String.length (strip (sn_text e)) <= 10) /\
  String.length (before (get_surrounding_text_range v 3)) <= 3 + 10 /\
  String.length (after (get_surrounding_text_range v 3)) <= 3 + 10.
Proof.
  intros v.
  assert (Hp : forall e, In e (img_prev v) -> String.length (strip (sn_text e)) <= 10).
  { intros e He. apply Nat.leb_le. revert e He. apply forallb_forall.
    vm_compute. reflexivity. }
  split; [exact Hp|].
  apply surrounding_text_overshoot_bound; [exact Hp|].
  intros e He. apply Nat.leb_le. revert e He. apply forallb_forall.
  vm_compute. reflexivity.
Defined.


Lemma button_image_functional_without_link_witness :
  let v := hd no_view (find_all_img w_doc_button) in
  find_parent ["button"] (img_parents v) = Some w_button /\
  link (rec_data (fst (process_image w_timeout_client [] v))) = None.
Proof.
  intros v. split; [vm_compute; reflexivity|].
  apply (button_image_functional_without_link w_timeout_client [] v w_button);
    vm_compute; reflexivity.
Defined.

Lemma json_filename_in_output_dir_witness :
  let url := "https://www.thecounselingpalette.com/post/board-games-for-couples" in
  json_filename url "20261015_120000" =
  "output/image_analysis_www.thecounselingpalette.com_post_board-games-for-couples_20261015_120000.json" /\
  exists rest, json_filename url "20261015_120000" = append "output/" rest /\
               contains "/" rest = false.
Proof.
  intros url. split; [vm_compute; reflexivity|].
  apply json_filename_in_output_dir. vm_compute. reflexivity.
Defined.

(** ** The context budget *)

Lemma valid_fragments_cons (e : strnode) (rest : list strnode) :
  valid_fragments (e :: rest) =
  if is_valid_text e then strip (sn_text e) :: valid_fragments rest
  else valid_fragments rest.
Proof. unfold valid_fragments. simpl. destruct (is_valid_text e); reflexivity. Qed.

Lemma py_truthy_nonempty (s : string) : py_truthy s = true -> s <> "".
Proof. intros T Heq. apply py_truthy_false in Heq. congruence. Qed.

Lemma nonempty_py_truthy (s : string) : s <> "" -> py_truthy s = true.
Proof. intros H. apply Bool.not_false_iff_true. rewrite py_truthy_false. exact H. Qed.

Lemma strings_of_nonempty (evs : list event) :
  forall e, In e (strings_of evs) -> sn_text e <> "".
Proof.
  induction evs as [|[a ps|sn] evs IH]; simpl; intros e H; [contradiction|apply IH, H|].
  destruct (py_truthy (sn_text sn)) eqn:T; [|apply IH, H].
  destruct H as [<-|H]; [apply py_truthy_nonempty, T|apply IH, H].
Qed.

Lemma views_aux_nonempty (before : list strnode) (evs : list event) (v : img_view) :
  (forall e, In e before -> sn_text e <> "") ->
  In v (views_aux before evs) ->
  (forall e, In e (img_prev v) -> sn_text e <> "") /\
  (forall e, In e (img_next v) -> sn_text e <> "").
Proof.
  revert before. induction evs as [|[a ps|sn] evs IH]; intros before Hb Hin; simpl in Hin.
  - contradiction.
  - destruct Hin as [<-|Hin]; [|exact (IH before Hb Hin)].
    split; [exact Hb | apply strings_of_nonempty].
  - refine (IH _ _ Hin).
    destruct (py_truthy (sn_text sn)) eqn:T; [|exact Hb].
    intros e [<-|He]; [apply py_truthy_nonempty, T|apply Hb, He].
Qed.

Lemma find_all_img_nonempty (doc : node) (v : img_view) :
  In v (find_all_img doc) ->
  (forall e, In e (img_prev v) -> sn_text e <> "") /\
  (forall e, In e (img_next v) -> sn_text e <> "").
Proof.
  unfold find_all_img. apply views_aux_nonempty. intros e [].
Qed.

Lemma collect_frags_prev_stop (context_range : nat) (acc fs : list string) :
  Nat.ltb (String.length (join_space acc)) context_range = false ->
  collect_frags_prev context_range acc fs = acc.
Proof. intros H. destruct fs; simpl; [|rewrite H]; reflexivity. Qed.

Lemma collect_frags_next_stop (context_range : nat) (acc fs : list string) :
  Nat.ltb (String.length (join_space acc)) context_range = false ->
  collect_frags_next context_range acc fs = acc.
Proof. intros H. destruct fs; simpl; [|rewrite H]; reflexivity. Qed.

Lemma collect_frags_prev_step (context_range : nat) (acc : list string) (f : string) (r : list string) :
  Nat.ltb (String.length (join_space acc)) context_range = true ->
  collect_frags_prev context_range acc (f :: r) = collect_frags_prev context_range (f :: acc) r.
Proof. intros H. simpl. rewrite H. reflexivity. Qed.

Lemma collect_frags_next_step (context_range : nat) (acc : list string) (f : string) (r : list string) :
  Nat.ltb (String.length (join_space acc)) context_range = true ->
  collect_frags_next context_range acc (f :: r) = collect_frags_next context_range (acc ++ [f]) r.
Proof. intros H. simpl. rewrite H. reflexivity. Qed.

(** With no empty string on the way, the walks over the string nodes
    are the walks over their valid fragments: a skipped string leaves the
    accumulator, hence the budget test, as it was. *)
Lemma collect_prev_frags (context_range : nat) (acc : list string) (cur : list strnode) :
  (forall e, In e cur -> sn_text e <> "") ->
  collect_prev context_range acc cur =
  collect_frags_prev context_range acc (valid_fragments cur).
Proof.
  revert acc. induction cur as [|e rest IH]; intros acc Hne; [reflexivity|].
  assert (Hr : forall x, In x rest -> sn_text x <> "") by (intros x Hx; apply Hne; right; exact Hx).
  simpl collect_prev. rewrite (nonempty_py_truthy _ (Hne e (or_introl eq_refl))), valid_fragments_cons.
  simpl andb.
  destruct (Nat.ltb (String.length (join_space acc)) context_range) eqn:El.
  - destruct (is_valid_text e).
    + rewrite collect_frags_prev_step by exact El. apply IH, Hr.
    + apply IH, Hr.
  - destruct (is_valid_text e); symmetry; apply collect_frags_prev_stop, El.
Qed.

Lemma collect_next_frags (context_range : nat) (acc : list string) (cur : list strnode) :
  (forall e, In e cur -> sn_text e <> "") ->
  collect_next context_range acc cur =
  collect_frags_next context_range acc (valid_fragments cur).
Proof.
  revert acc. induction cur as [|e rest IH]; intros acc Hne; [reflexivity|].
  assert (Hr : forall x, In x rest -> sn_text x <> "") by (intros x Hx; apply Hne; right; exact Hx).
  simpl collect_next. rewrite (nonempty_py_truthy _ (Hne e (or_introl eq_refl))), valid_fragments_cons.
  simpl andb.
  destruct (Nat.ltb (String.length (join_space acc)) context_range) eqn:El.
  - destruct (is_valid_text e).
    + rewrite collect_frags_next_step by exact El. apply IH, Hr.
    + apply IH, Hr.
  - destruct (is_valid_text e); symmetry; apply collect_frags_next_stop, El.
Qed.

Lemma collect_next_budget (context_range : nat) (acc : list string) (cur : list strnode) :
  (forall e, In e cur -> sn_text e <> "") ->
  context_range <= String.length (join_space (collect_next context_range acc cur)) \/
  collect_next context_range acc cur = acc ++ valid_fragments cur.
Proof.
  revert acc. induction cur as [|e rest IH]; intros acc Hne; simpl.
  - right. rewrite app_nil_r. reflexivity.
  - rewrite (nonempty_py_truthy _ (Hne e (or_introl eq_refl))). simpl.
    destruct (Nat.ltb (String.length (join_space acc)) context_range) eqn:El.
    + destruct (IH (if is_valid_text e then acc ++ [strip (sn_text e)] else acc))
        as [H|H]; [intros x Hx; apply Hne; right; exact Hx | left; exact H |].
      right. rewrite H. unfold valid_fragments. simpl.
      destruct (is_valid_text e); simpl; [|reflexivity].
      rewrite <- app_assoc. reflexivity.
    + left. apply Nat.ltb_ge in El. exact El.
Qed.

(** The last fragment the backward walk adds (the head of its list) is
    added while the fragments before it are still under the budget. *)
Lemma collect_prev_last (context_range : nat) (acc : list string) (cur : list strnode) :
  collect_prev context_range acc cur = acc \/
  exists f rest, collect_prev context_range acc cur = f :: rest /\
                 String.length (join_space rest) < context_range.
Proof.
  revert acc. induction cur as [|e cur IH]; intros acc; simpl; [left; reflexivity|].
  destruct (py_truthy (sn_text e) && Nat.ltb (String.length (join_space acc)) context_range)
    eqn:G; [|left; reflexivity].
  apply andb_prop in G as [_ G]. apply Nat.ltb_lt in G.
  destruct (is_valid_text e); [|exact (IH acc)].
  destruct (IH (strip (sn_text e) :: acc)) as [H|H]; [|right; exact H].
  right. exists (strip (sn_text e)), acc. split; [exact H|exact G].
Qed.

Lemma collect_next_last (context_range : nat) (acc : list string) (cur : list strnode) :
  collect_next context_range acc cur = acc \/
  exists rest f, collect_next context_range acc cur = rest ++ [f] /\
                 String.length (join_space rest) < context_range.
Proof.
  revert acc. induction cur as [|e cur IH]; intros acc; simpl; [left; reflexivity|].
  destruct (py_truthy (sn_text e) && Nat.ltb (String.length (join_space acc)) context_range)
    eqn:G; [|left; reflexivity].
  apply andb_prop in G as [_ G]. apply Nat.ltb_lt in G.
  destruct (is_valid_text e); [|exact (IH acc)].
  destruct (IH (acc ++ [strip (sn_text e)])) as [H|H]; [|right; exact H].
  right. exists acc, (strip (sn_text e)). split; [exact H|exact G].
Qed.

Lemma join_space_length (l : list string) :
  String.length (join_space l) =
  (list_sum (map String.length l) + pred (List.length l))%nat.
Proof.
  induction l as [|x l IH]; [reflexivity|].
  destruct l as [|y l]; [unfold join_space; simpl; lia|].
  rewrite join_space_cons_eq by discriminate. rewrite IH. simpl. lia.
Qed.

Lemma list_sum_rev (l : list nat) : list_sum (rev l) = list_sum l.
Proof.
  induction l as [|x l IH]; [reflexivity|].
  simpl. rewrite list_sum_app, IH. simpl. lia.
Qed.

Lemma join_space_rev_length (l : list string) :
  String.length (join_space (rev l)) = String.length (join_space l).
Proof.
  rewrite !join_space_length, map_rev, list_sum_rev, length_rev. reflexivity.
Qed.

Lemma join_space_three (f1 f2 f3 : string) :
  String.length (join_space [f1; f2; f3]) =
  (String.length f1 + 1 + String.length f2 + 1 + String.length f3)%nat.
Proof.
  rewrite join_space_cons_eq, join_space_cons_eq by discriminate.
  unfold join_space. simpl. lia.
Qed.

(** C3. For each image of a document and a budget [B], on each side:
    the walk stops only once the space-joined fragments reach [B], or
    when the strings run out, and then holds every valid fragment; the
    last fragment added was added while the others stayed under [B] (a
    soft stop, overshooting [B] by at most that fragment); a side whose
    valid fragments join to at least [B] characters yields at least [B]
    characters; and with [B = 100], three valid 40-character fragments
    nearest the image on a side are all taken, giving at least 100
    characters. *)
Theorem context_budget_soft_stop (doc : node) (v : img_view) (B : nat) :
  In v (find_all_img doc) ->
  (B <= String.length (before (get_surrounding_text_range v B)) \/
   collect_prev B [] (img_prev v) = rev (valid_fragments (img_prev v))) /\
  (B <= String.length (after (get_surrounding_text_range v B)) \/
   collect_next B [] (img_next v) = valid_fragments (img_next v)) /\
  (forall f rest, collect_prev B [] (img_prev v) = f :: rest ->
     String.length (join_space rest) < B) /\
  (forall rest f, collect_next B [] (img_next v) = rest ++ [f] ->
     String.length (join_space rest) < B) /\
  (B <= String.length (join_space (valid_fragments (img_prev v))) ->
     B <= String.length (before (get_surrounding_text_range v B))) /\
  (B <= String.length (join_space (valid_fragments (img_next v))) ->
     B <= String.length (after (get_surrounding_text_range v B))) /\
  (forall f1 f2 f3 rest, valid_fragments (img_prev v) = f1 :: f2 :: f3 :: rest ->
     String.length f1 = 40%nat -> String.length f2 = 40%nat -> String.length f3 = 40%nat ->
     collect_prev 100 [] (img_prev v) = [f3; f2; f1] /\
     100 <= String.length (before (get_surrounding_text v))) /\
  (forall f1 f2 f3 rest, valid_fragments (img_next v) = f1 :: f2 :: f3 :: rest ->
     String.length f1 = 40%nat -> String.length f2 = 40%nat -> String.length f3 = 40%nat ->
     collect_next 100 [] (img_next v) = [f1; f2; f3] /\
     100 <= String.length (after (get_surrounding_text v))).
Proof.
  intros Hin. destruct (find_all_img_nonempty doc v Hin) as [Hp Hn].
  unfold get_surrounding_text, get_surrounding_text_range. simpl before; simpl after.
  split; [|split; [|split; [|split; [|split; [|split; [|split]]]]]].
  - destruct (collect_prev_budget B [] (img_prev v) Hp) as [H|H]; [left; exact H|].
    right. rewrite H, app_nil_r. reflexivity.
  - destruct (collect_next_budget B [] (img_next v) Hn) as [H|H]; [left; exact H|].
    right. exact H.
  - intros f rest Hc.
    destruct (collect_prev_last B [] (img_prev v)) as [H|[f' [rest' [H Hl]]]].
    + rewrite Hc in H. discriminate.
    + rewrite Hc in H. injection H as _ <-. exact Hl.
  - intros rest f Hc.
    destruct (collect_next_last B [] (img_next v)) as [H|[rest' [f' [H Hl]]]].
    + rewrite Hc in H. destruct rest; discriminate.
    + rewrite Hc in H. apply app_inj_tail in H as [<- _]. exact Hl.
  - intros Hv.
    destruct (collect_prev_budget B [] (img_prev v) Hp) as [H|H]; [exact H|].
    rewrite H, app_nil_r, join_space_rev_length. exact Hv.
  - intros Hv.
    destruct (collect_next_budget B [] (img_next v) Hn) as [H|H]; [exact H|].
    rewrite H. exact Hv.
  - intros f1 f2 f3 rest Hv H1 H2 H3.
    assert (Hc : collect_prev 100 [] (img_prev v) = [f3; f2; f1]).
    { rewrite collect_prev_frags by exact Hp. rewrite Hv.
      rewrite collect_frags_prev_step by reflexivity.
      rewrite collect_frags_prev_step
        by (unfold join_space; simpl; rewrite H1; reflexivity).
      rewrite collect_frags_prev_step
        by (apply Nat.ltb_lt; rewrite join_space_cons_eq by discriminate;
            unfold join_space; simpl; lia).
      apply collect_frags_prev_stop.
      apply Nat.ltb_ge. rewrite join_space_three. lia. }
    split; [exact Hc|]. rewrite Hc, join_space_three. lia.
  - intros f1 f2 f3 rest Hv H1 H2 H3.
    assert (Hc : collect_next 100 [] (img_next v) = [f1; f2; f3]).
    { rewrite collect_next_frags by exact Hn. rewrite Hv.
      rewrite collect_frags_next_step by reflexivity. cbn [app].
      rewrite collect_frags_next_step
        by (unfold join_space; simpl; rewrite H1; reflexivity). cbn [app].
      rewrite collect_frags_next_step
        by (apply Nat.ltb_lt; rewrite join_space_cons_eq by discriminate;
            unfold join_space; simpl; lia). cbn [app].
      apply collect_frags_next_stop.
      apply Nat.ltb_ge. rewrite join_space_three. lia. }
    split; [exact Hc|]. rewrite Hc, join_space_three. lia.
Qed.

Lemma context_budget_soft_stop_witness :
  let v := hd no_view (find_all_img c3_doc) in
  In v (find_all_img c3_doc) /\
  before (get_surrounding_text v) = "Intro text" /\
  (100 <= String.length (before (get_surrounding_text_range v 100)) \/
   collect_prev 100 [] (img_prev v) = rev (valid_fragments (img_prev v))).
Proof.
  intros v.
  assert (H : In v (find_all_img c3_doc)) by (vm_compute; left; reflexivity).
  split; [exact H|]. split; [vm_compute; reflexivity|].
  apply (context_budget_soft_stop c3_doc v 100 H).
Defined.
